(** * The amortizing-loan computation of [LoanCalculator.tsx]

    [calculateLoan] (src/components/LoanCalculator.tsx, lines 26-71) reads three
    parsed inputs, validates them, derives the fixed monthly payment and builds
    the payment schedule in a [for] loop.  All its values are JavaScript
    numbers, i.e. IEEE 754 binary64 doubles.

    The code is embedded once, over an interface [JSNumber] of the number
    operations it uses, and read at two instances:
    - [binary64]: the doubles of the source, on Rocq's primitive floats, with
      [Math.pow] (which ECMAScript leaves implementation-approximated) as a
      parameter;
    - [rationals]: the rationals, the exact arithmetic the annuity formula is
      derived in.

    Statements that only depend on the shape of the code are proved for every
    instance; statements about [NaN], infinities and rounding are proved on
    [binary64]; statements that hold of the ideal values only are proved on
    [rationals]. *)

From Stdlib Require Import ZArith QArith Qpower Qfield Floats Bool List Lia Lqa.
Import ListNotations.

(** ** Numbers as the code uses them *)

(** The operations of a JavaScript number that [calculateLoan] uses.  [lit] is
    an integer literal ([0], [1], [12], [100]) or an integer-valued number
    ([months]); [Math_pow] is only ever called with the integer-valued
    [months] as exponent, so it takes the exponent as an integer. *)
Class JSNumber (num : Type) : Type := {
  lit : Z -> num;
  add : num -> num -> num;
  sub : num -> num -> num;
  mul : num -> num -> num;
  div : num -> num -> num;
  Math_pow : num -> Z -> num;
  Math_max : num -> num -> num;
  strict_eq : num -> num -> bool;   (* x === y *)
  lt : num -> num -> bool;          (* x < y   *)
  le : num -> num -> bool;          (* x <= y  *)
  falsy : num -> bool               (* !x      *)
}.

Declare Scope js_scope.
Delimit Scope js_scope with js.
Infix "+" := add : js_scope.
Infix "-" := sub : js_scope.
Infix "*" := mul : js_scope.
Infix "/" := div : js_scope.
Infix "===" := strict_eq (at level 70, no associativity) : js_scope.
Infix "<?" := lt (at level 70, no associativity) : js_scope.
Infix "<=?" := le (at level 70, no associativity) : js_scope.

(** What [parseInt] returns: [NaN], or an integer-valued number.  Integers are
    kept as [Z]; the loop counter [i] and [paymentNumber] are integers too.
    (A double counts integers exactly up to 2^53, far beyond any term a
    schedule can be produced for.) *)
Inductive IntParse : Type :=
| IntNaN
| IntVal (z : Z).

(** [!months] and [months <= 0] on a [parseInt] result: [NaN] is falsy and
    compares false with everything. *)
Definition int_falsy (months : IntParse) : bool :=
  match months with IntNaN => true | IntVal z => (z =? 0)%Z end.

Definition int_le0 (months : IntParse) : bool :=
  match months with IntNaN => false | IntVal z => (z <=? 0)%Z end.

(** The integer a [parseInt] result stands for; only read after the guard has
    excluded [NaN]. *)
Definition int_value (months : IntParse) : Z :=
  match months with IntNaN => 0%Z | IntVal z => z end.

(** ** The engine *)

Section Engine.
Context {num : Type} {N : JSNumber num}.
Local Open Scope js_scope.

(** interface PaymentSchedule (lines 4-10) *)
Record PaymentSchedule : Type := {
  paymentNumber : Z;
  paymentAmount : num;
  principalAmount : num;
  interestAmount : num;
  remainingBalance : num
}.

(** interface LoanSummary (lines 12-17) *)
Record LoanSummary : Type := {
  monthlyPayment : num;
  totalPayments : num;
  totalInterest : num;
  totalAmount : num
}.

(** The guard of line 31:
    [!principal || !annualRate || !months || principal <= 0 ||
     annualRate < 0 || months <= 0]. *)
Definition rejected (principal annualRate : num) (months : IntParse) : bool :=
  falsy principal || falsy annualRate || int_falsy months
  || (principal <=? lit 0) || (annualRate <? lit 0) || int_le0 months.

(** Line 37. *)
Definition monthlyRate_of (annualRate : num) : num :=
  annualRate / lit 100 / lit 12.

(** The two payment expressions of lines 39 and 40. *)
Definition straight_line (principal : num) (months : Z) : num :=
  principal / lit months.

Definition annuity (principal monthlyRate : num) (months : Z) : num :=
  (principal * monthlyRate * Math_pow (lit 1 + monthlyRate) months)
  / (Math_pow (lit 1 + monthlyRate) months - lit 1).

(** Lines 38-40. *)
Definition monthlyPayment_of (principal monthlyRate : num) (months : Z) : num :=
  if monthlyRate === lit 0
  then straight_line principal months
  else annuity principal monthlyRate months.

(** One pass through the loop body, lines 46-56: the record pushed for
    period [i] when the balance before it is [remainingBalance]. *)
Definition period (i : Z) (monthlyRate monthlyPayment remainingBalance : num)
  : PaymentSchedule :=
  let interestAmount := remainingBalance * monthlyRate in
  let principalAmount := monthlyPayment - interestAmount in
  let remainingBalance := Math_max (lit 0) (remainingBalance - principalAmount) in
  {| paymentNumber := i;
     paymentAmount := monthlyPayment;
     principalAmount := principalAmount;
     interestAmount := interestAmount;
     remainingBalance := remainingBalance |}.

(** The [for] loop of lines 45-59.  [todo] is the number of passes the
    counter still allows ([months - i + 1]) and [balance] the variable
    [remainingBalance] on entry; the loop also leaves through the [break] of
    line 58, right after the push. *)
Fixpoint loop (todo : nat) (i : Z) (monthlyRate monthlyPayment balance : num)
  : list PaymentSchedule :=
  match todo with
  | O => []
  | S todo' =>
      let row := period i monthlyRate monthlyPayment balance in
      if remainingBalance row === lit 0
      then [row]
      else row :: loop todo' (i + 1)%Z monthlyRate monthlyPayment (remainingBalance row)
  end.

(** Lines 31-70 as a function of the three parsed inputs: the values handed
    to [setLoanSummary] and [setPaymentSchedule]. *)
Definition compute (principal annualRate : num) (months : IntParse)
  : option LoanSummary * list PaymentSchedule :=
  if rejected principal annualRate months then (None, [])
  else
    let months := int_value months in
    let monthlyRate := monthlyRate_of annualRate in
    let monthlyPayment := monthlyPayment_of principal monthlyRate months in
    let schedule := loop (Z.to_nat months) 1 monthlyRate monthlyPayment principal in
    let totalPayments := monthlyPayment * lit months in
    let totalInterest := totalPayments - principal in
    (Some {| monthlyPayment := monthlyPayment;
             totalPayments := totalPayments;
             totalInterest := totalInterest;
             totalAmount := totalPayments |},
     schedule).

(** The component state of lines 20-24, with the three inputs as
    [parseFloat] and [parseInt] read them (lines 27-29). *)
Record State : Type := {
  loanAmount : num;
  interestRate : num;
  loanTermMonths : IntParse;
  paymentSchedule : list PaymentSchedule;
  loanSummary : option LoanSummary
}.

(** [calculateLoan] (lines 26-71): reads the three inputs and overwrites the
    two outputs. *)
Definition calculateLoan (st : State) : State :=
  let '(summary, schedule) :=
    compute (loanAmount st) (interestRate st) (loanTermMonths st) in
  {| loanAmount := loanAmount st;
     interestRate := interestRate st;
     loanTermMonths := loanTermMonths st;
     paymentSchedule := schedule;
     loanSummary := summary |}.

End Engine.

Arguments PaymentSchedule num : clear implicits.
Arguments LoanSummary num : clear implicits.
Arguments State num : clear implicits.

(** The Empty result: no summary and no record. *)
Definition Empty {num : Type} : option (LoanSummary num) * list (PaymentSchedule num) :=
  (None, []).

(** ** Doubles *)

Module Double.

(** The double nearest to an integer. *)
Definition of_Z (z : Z) : float :=
  SF2Prim (binary_normalize prec emax z 0 false).

Definition is_pzero (x : float) : bool :=
  match classify x with PZero => true | _ => false end.

Definition is_nzero (x : float) : bool :=
  match classify x with NZero => true | _ => false end.

(** One step of the scan of [Math.max] (ECMAScript, Math.max, step 4):
    "if number is +0 and highest is -0, set highest to +0; if number >
    highest, set highest to number". *)
Definition max_visit (highest number : float) : float :=
  let highest := if is_pzero number && is_nzero highest then number else highest in
  if (highest <? number)%float then number else highest.

(** [Math.max(a, b)]: [NaN] if either is, else the scan from -Infinity. *)
Definition max (a b : float) : float :=
  if is_nan a || is_nan b then nan
  else max_visit (max_visit neg_infinity a) b.

(** [!x] on a number: true for [NaN], [+0] and [-0]. *)
Definition is_falsy (x : float) : bool := is_nan x || is_zero x.

(** The values that multiplying and dividing cannot leave: a zero or [NaN],
    read on the specification of a double. *)
Definition zero_or_nan (x : spec_float) : Prop :=
  match x with
  | S754_zero _ | S754_nan => True
  | _ => False
  end.

End Double.

(** The doubles of the source.  [pow b n] stands for [Math.pow(b, n)] at an
    integer-valued [n]. *)
Definition binary64 (pow : float -> Z -> float) : JSNumber float := {|
  lit := Double.of_Z;
  add := PrimFloat.add;
  sub := PrimFloat.sub;
  mul := PrimFloat.mul;
  div := PrimFloat.div;
  Math_pow := pow;
  Math_max := Double.max;
  strict_eq := PrimFloat.eqb;
  lt := PrimFloat.ltb;
  le := PrimFloat.leb;
  falsy := Double.is_falsy
|}.

(** A power by repeated multiplication, to run the engine on concrete
    inputs, and the doubles with it. *)
Definition pow_mult (b : float) (n : Z) : float :=
  match n with
  | Zpos p => Pos.iter (PrimFloat.mul b) PrimFloat.one p
  | _ => PrimFloat.one
  end.

Abbreviation run64 := (binary64 pow_mult).

(** Two component states with the same inputs (250000 at 4.5 percent over 360
    months): one before any calculation, one still holding the outputs of a
    calculation for 1200 at 6 percent over 3 months. *)
Definition fresh_state : State float :=
  {| loanAmount := 250000%float;
     interestRate := 4.5%float;
     loanTermMonths := IntVal 360;
     paymentSchedule := [];
     loanSummary := None |}.

Definition used_state : State float :=
  {| loanAmount := 250000%float;
     interestRate := 4.5%float;
     loanTermMonths := IntVal 360;
     paymentSchedule := snd (compute (N := run64) 1200%float 6%float (IntVal 3));
     loanSummary := fst (compute (N := run64) 1200%float 6%float (IntVal 3)) |}.

(** ** Exact arithmetic *)

#[export] Instance rationals : JSNumber Q := {|
  lit := inject_Z;
  add := Qplus;
  sub := Qminus;
  mul := Qmult;
  div := Qdiv;
  Math_pow := Qpower;
  Math_max := fun a b => if Qle_bool a b then b else a;
  strict_eq := Qeq_bool;
  lt := fun a b => negb (Qle_bool b a);
  le := Qle_bool;
  falsy := fun x => Qeq_bool x 0
|}.

(** ** What the claims speak of *)

Section Vocabulary.
Context {num : Type} {N : JSNumber num}.
Local Open Scope js_scope.

(** The two halves of a result. *)
Definition summary_of (principal annualRate : num) (months : IntParse)
  : option (LoanSummary num) :=
  fst (compute principal annualRate months).

Definition schedule_of (principal annualRate : num) (months : IntParse)
  : list (PaymentSchedule num) :=
  snd (compute principal annualRate months).

(** The record at position [k] (from 0) of a schedule, if any. *)
Definition record_at (rows : list (PaymentSchedule num)) (k : nat)
  : option (PaymentSchedule num) :=
  nth_error rows k.

(** The last record of a schedule, if any. *)
Definition last_record (rows : list (PaymentSchedule num))
  : option (PaymentSchedule num) :=
  match rows with
  | [] => None
  | row :: rest => Some (last rest row)
  end.

(** The recurrence of the specification, section 4.1 step 3, read along a
    list of records from the balance [balance] before its first record:
    [interest_i = balance * r], [principal_i = P - interest_i],
    [balance' = max(0, balance - principal_i)]. *)
Fixpoint follows_recurrence (r P balance : num) (rows : list (PaymentSchedule num))
  : Prop :=
  match rows with
  | [] => True
  | row :: rest =>
      interestAmount row = balance * r
      /\ principalAmount row = P - interestAmount row
      /\ remainingBalance row = Math_max (lit 0) (balance - principalAmount row)
      /\ follows_recurrence r P (remainingBalance row) rest
  end.

End Vocabulary.

(** The balance after [k] payments of the annuity that retires [p] in [m]
    periods at the periodic rate [r], in exact arithmetic:
    [p ((1+r)^m - (1+r)^k) / ((1+r)^m - 1)]. *)
Definition balance_after (p r : Q) (m k : Z) : Q :=
  (p * ((1 + r) ^ m - (1 + r) ^ k) / ((1 + r) ^ m - 1))%Q.

(** ** The component around the engine *)

Section Component.
Context {num : Type} {N : JSNumber num}.

(** An edit of one of the three form fields (the [onChange] handlers of
    lines 119, 136 and 152 store the text typed; the value carried here is
    what lines 27-29 parse from that text). *)
Inductive InputChange : Type :=
| ChangeLoanAmount (v : num)
| ChangeInterestRate (v : num)
| ChangeLoanTermMonths (v : IntParse).

(** [setLoanAmount], [setInterestRate], [setLoanTermMonths]: one input is
    replaced, nothing else. *)
Definition handle (ev : InputChange) (st : State num) : State num :=
  match ev with
  | ChangeLoanAmount v =>
      {| loanAmount := v;
         interestRate := interestRate st;
         loanTermMonths := loanTermMonths st;
         paymentSchedule := paymentSchedule st;
         loanSummary := loanSummary st |}
  | ChangeInterestRate v =>
      {| loanAmount := loanAmount st;
         interestRate := v;
         loanTermMonths := loanTermMonths st;
         paymentSchedule := paymentSchedule st;
         loanSummary := loanSummary st |}
  | ChangeLoanTermMonths v =>
      {| loanAmount := loanAmount st;
         interestRate := interestRate st;
         loanTermMonths := v;
         paymentSchedule := paymentSchedule st;
         loanSummary := loanSummary st |}
  end.

(** The states the component renders: the one of [useState] (lines 20-24,
    no schedule and no summary yet), a state after a handler has stored an
    input, and a state after the effect of lines 73-75 has run
    [calculateLoan].  Any order of the last two is allowed, which covers
    every schedule of renders and effects. *)
Inductive renders : State num -> Prop :=
| renders_initial (st : State num) :
    paymentSchedule st = [] -> loanSummary st = None -> renders st
| renders_input (ev : InputChange) (st : State num) :
    renders st -> renders (handle ev st)
| renders_effect (st : State num) :
    renders st -> renders (calculateLoan st).

(** Line 165, [loanSummary && (...)]: the summary panel is rendered. *)
Definition shows_summary (st : State num) : bool :=
  match loanSummary st with Some _ => true | None => false end.

(** Lines 198 and 203, [paymentSchedule.length > 0]: the table is rendered
    (otherwise the placeholder is). *)
Definition shows_table (st : State num) : bool :=
  (0 <? length (paymentSchedule st))%nat.

(** Line 226, [key={payment.paymentNumber}]: the keys of the table rows, in
    order. *)
Definition row_keys (st : State num) : list Z :=
  map paymentNumber (paymentSchedule st).

(** The sum of one column of a schedule. *)
Definition total (column : PaymentSchedule num -> num)
  (rows : list (PaymentSchedule num)) : num :=
  fold_right (fun row acc => add (column row) acc) (lit 0) rows.

End Component.

Arguments InputChange num : clear implicits.

(** Two rendered states on doubles: the mounted component after the term has
    been edited to 12 months, and that state after the rate has been edited
    to 0. *)
Definition edited_state : State float :=
  calculateLoan (N := run64)
    (handle (ChangeLoanTermMonths (IntVal 12)) (calculateLoan (N := run64) fresh_state)).

Definition cleared_state : State float :=
  calculateLoan (N := run64) (handle (ChangeInterestRate 0%float) edited_state).

(** A double that is not below zero, read on its specification: a zero, a
    positive finite number, [+Infinity], or else [NaN]. *)
Definition nonneg_or_nan (x : spec_float) : Prop :=
  match x with
  | S754_nan | S754_zero _ | S754_infinity false | S754_finite false _ _ => True
  | _ => False
  end.

(** * Properties of the engine, for every number instance *)

Section Schedule.
Context {num : Type} {N : JSNumber num}.
Local Open Scope js_scope.

Lemma last_cons (rest : list (PaymentSchedule num)) : forall row d,
  last (row :: rest) d = last rest row.
Proof.
  induction rest as [|x rest IH]; intros row d.
  - reflexivity.
  - change (last (x :: rest) d = last (x :: rest) row).
    now rewrite !IH.
Qed.

Lemma last_record_at (rows : list (PaymentSchedule num)) :
  last_record rows = record_at rows (pred (length rows)).
Proof.
  unfold record_at. destruct rows as [|row rest]; [reflexivity|].
  cbn [last_record length pred]. revert row.
  induction rest as [|x rest IH]; intros row.
  - reflexivity.
  - cbn [length nth_error]. rewrite <- IH. now rewrite last_cons.
Qed.

(** ** The loop *)

Lemma loop_S (todo : nat) (i : Z) (r P balance : num) :
  loop (S todo) i r P balance =
  let row := period i r P balance in
  if remainingBalance row === lit 0 then [row]
  else row :: loop todo (i + 1)%Z r P (remainingBalance row).
Proof. reflexivity. Qed.

Lemma loop_length (todo : nat) : forall (i : Z) (r P balance : num),
  (length (loop todo i r P balance) <= todo)%nat.
Proof.
  induction todo as [|todo IH]; intros i r P balance.
  - apply Nat.le_refl.
  - rewrite loop_S; cbv zeta.
    destruct (remainingBalance (period i r P balance) === lit 0); cbn [length].
    + lia.
    + specialize (IH (i + 1)%Z r P (remainingBalance (period i r P balance))). lia.
Qed.

Lemma loop_nonempty (todo : nat) (i : Z) (r P balance : num) :
  loop (S todo) i r P balance <> [].
Proof.
  rewrite loop_S; cbv zeta.
  destruct (remainingBalance (period i r P balance) === lit 0); discriminate.
Qed.

Lemma loop_paymentNumber (todo : nat) : forall (i : Z) (r P balance : num) k row,
  record_at (loop todo i r P balance) k = Some row ->
  paymentNumber row = (i + Z.of_nat k)%Z.
Proof.
  unfold record_at.
  induction todo as [|todo IH]; intros i r P balance k row Hk.
  - destruct k; discriminate.
  - rewrite loop_S in Hk; cbv zeta in Hk.
    destruct (remainingBalance (period i r P balance) === lit 0).
    + destruct k as [|[|k]]; try discriminate.
      injection Hk as <-. simpl. lia.
    + destruct k as [|k].
      * injection Hk as <-. simpl. lia.
      * apply IH in Hk. lia.
Qed.

(** Every record of the loop is one pass of its body. *)
Lemma loop_In (todo : nat) : forall (i : Z) (r P balance : num) row,
  In row (loop todo i r P balance) ->
  exists i' balance', row = period i' r P balance'.
Proof.
  induction todo as [|todo IH]; intros i r P balance row Hin.
  - contradiction.
  - rewrite loop_S in Hin; cbv zeta in Hin.
    destruct (remainingBalance (period i r P balance) === lit 0).
    + destruct Hin as [<-|[]]. now exists i, balance.
    + destruct Hin as [<-|Hin]; [now exists i, balance|]. now apply IH in Hin.
Qed.

Lemma loop_paymentAmount (todo : nat) (i : Z) (r P balance : num) row :
  In row (loop todo i r P balance) -> paymentAmount row = P.
Proof. intros Hin. apply loop_In in Hin. destruct Hin as (i' & b & ->). reflexivity. Qed.

Lemma loop_principalAmount (todo : nat) (i : Z) (r P balance : num) row :
  In row (loop todo i r P balance) ->
  principalAmount row = paymentAmount row - interestAmount row.
Proof. intros Hin. apply loop_In in Hin. destruct Hin as (i' & b & ->). reflexivity. Qed.

Lemma loop_follows (todo : nat) : forall (i : Z) (r P balance : num),
  follows_recurrence r P balance (loop todo i r P balance).
Proof.
  induction todo as [|todo IH]; intros i r P balance.
  - exact I.
  - rewrite loop_S; cbv zeta.
    destruct (remainingBalance (period i r P balance) === lit 0); simpl;
      repeat split; auto.
Qed.

(** The [break]: a record whose balance is [=== 0] ends the schedule. *)
Lemma loop_break (todo : nat) : forall (i : Z) (r P balance : num) k row,
  record_at (loop todo i r P balance) k = Some row ->
  (remainingBalance row === lit 0) = true ->
  length (loop todo i r P balance) = S k.
Proof.
  unfold record_at.
  induction todo as [|todo IH]; intros i r P balance k row Hk Hz.
  - destruct k; discriminate.
  - rewrite loop_S in Hk |- *; cbv zeta in Hk |- *.
    destruct (remainingBalance (period i r P balance) === lit 0) eqn:E.
    + destruct k as [|[|k]]; try discriminate. reflexivity.
    + destruct k as [|k].
      * injection Hk as <-. congruence.
      * cbn [length]. f_equal. now apply (IH _ _ _ _ _ row).
Qed.

(** A schedule that stops before the counter runs out stopped at the
    [break]: its last record has a balance [=== 0]. *)
Lemma loop_short (todo : nat) : forall (i : Z) (r P balance : num),
  (length (loop todo i r P balance) < todo)%nat ->
  exists row, last_record (loop todo i r P balance) = Some row
              /\ (remainingBalance row === lit 0) = true.
Proof.
  induction todo as [|todo IH]; intros i r P balance Hlen.
  - inversion Hlen.
  - rewrite loop_S in Hlen |- *; cbv zeta in Hlen |- *.
    destruct (remainingBalance (period i r P balance) === lit 0) eqn:E.
    + eexists; split; [reflexivity|exact E].
    + set (b := remainingBalance (period i r P balance)) in *.
      cbn [length] in Hlen. apply PeanoNat.lt_S_n in Hlen.
      destruct (IH _ _ _ _ Hlen) as (row & Hlast & Hz).
      exists row. split; [|exact Hz].
      destruct (loop todo (i + 1)%Z r P b) as [|row' rest]; [discriminate|].
      cbn [last_record] in *. injection Hlast as <-.
      f_equal. apply last_cons.
Qed.

(** ** The result *)

Lemma compute_rejected (principal annualRate : num) (months : IntParse) :
  rejected principal annualRate months = true ->
  compute principal annualRate months = Empty.
Proof. intros H. unfold compute. now rewrite H. Qed.

Lemma compute_accepted (principal annualRate : num) (months : IntParse) :
  rejected principal annualRate months = false ->
  compute principal annualRate months =
  (let m := int_value months in
   let r := monthlyRate_of annualRate in
   let P := monthlyPayment_of principal r m in
   (Some {| monthlyPayment := P;
            totalPayments := P * lit m;
            totalInterest := P * lit m - principal;
            totalAmount := P * lit m |},
    loop (Z.to_nat m) 1 r P principal)).
Proof. intros H. unfold compute. now rewrite H. Qed.

(** The guard lets no term through that is [NaN] or not positive. *)
Lemma accepted_months (principal annualRate : num) (months : IntParse) :
  rejected principal annualRate months = false ->
  exists m, months = IntVal m /\ (0 < m)%Z.
Proof.
  unfold rejected. rewrite !orb_false_iff.
  intros (((((_ & _) & H3) & _) & _) & H6).
  destruct months as [|m]; [discriminate|].
  exists m. split; [reflexivity|]. cbn in H3, H6. lia.
Qed.

Lemma schedule_accepted (principal annualRate : num) (m : Z) :
  rejected principal annualRate (IntVal m) = false ->
  schedule_of principal annualRate (IntVal m) =
  loop (Z.to_nat m) 1 (monthlyRate_of annualRate)
       (monthlyPayment_of principal (monthlyRate_of annualRate) m) principal.
Proof. intros H. unfold schedule_of. now rewrite (compute_accepted _ _ _ H). Qed.

Lemma summary_accepted (principal annualRate : num) (m : Z) :
  rejected principal annualRate (IntVal m) = false ->
  summary_of principal annualRate (IntVal m) =
  (let P := monthlyPayment_of principal (monthlyRate_of annualRate) m in
   Some {| monthlyPayment := P;
           totalPayments := P * lit m;
           totalInterest := P * lit m - principal;
           totalAmount := P * lit m |}).
Proof. intros H. unfold summary_of. now rewrite (compute_accepted _ _ _ H). Qed.

(** An accepted input gets at least one record. *)
Lemma schedule_nonempty (principal annualRate : num) (m : Z) :
  rejected principal annualRate (IntVal m) = false ->
  schedule_of principal annualRate (IntVal m) <> [].
Proof.
  intros H. rewrite (schedule_accepted _ _ _ H).
  destruct (accepted_months _ _ _ H) as (m' & [= <-] & Hm).
  destruct (Z.to_nat m) as [|todo] eqn:E; [lia|]. apply loop_nonempty.
Qed.

(** ** The claims that hold at every instance *)

(** C3, as amended.  For every input the guard accepts, the summary's
    monthly payment is the annuity expression
    [principal * r * (1+r)^months / ((1+r)^months - 1)] with
    [r = annualRate / 100 / 12], provided the computed [r] is not [=== 0];
    and the emitted schedule follows the recurrence
    [interest = balance * r], [principal = P - interest],
    [balance' = max(0, balance - principal)] from [balance = principal]. *)
Theorem payment_formula_and_recurrence (principal annualRate : num) (m : Z) :
  rejected principal annualRate (IntVal m) = false ->
  exists s,
    summary_of principal annualRate (IntVal m) = Some s
    /\ ((monthlyRate_of annualRate === lit 0) = false ->
        monthlyPayment s = annuity principal (monthlyRate_of annualRate) m)
    /\ follows_recurrence (monthlyRate_of annualRate) (monthlyPayment s) principal
         (schedule_of principal annualRate (IntVal m)).
Proof.
  intros H. rewrite (summary_accepted _ _ _ H), (schedule_accepted _ _ _ H).
  eexists; split; [reflexivity|]. cbn [monthlyPayment]. split.
  - intros Hr. unfold monthlyPayment_of. now rewrite Hr.
  - apply loop_follows.
Qed.

(** C4.  For every input the guard accepts, the summary is the nominal one:
    [totalPayments = monthlyPayment * months],
    [totalInterest = totalPayments - principal] and
    [totalAmount = totalPayments], whatever the length of the emitted
    schedule. *)
Theorem summary_is_nominal (principal annualRate : num) (m : Z) :
  rejected principal annualRate (IntVal m) = false ->
  exists s,
    summary_of principal annualRate (IntVal m) = Some s
    /\ totalPayments s = monthlyPayment s * lit m
    /\ totalInterest s = totalPayments s - principal
    /\ totalAmount s = totalPayments s.
Proof.
  intros H. rewrite (summary_accepted _ _ _ H).
  eexists; split; [reflexivity|]. repeat split.
Qed.

(** C7.  For every input the guard accepts, the schedule has at most
    [months] records; the record at position [k] (from 0) carries
    [paymentNumber = k + 1]; a schedule shorter than [months] ends in a
    record whose balance is [=== 0]; and a record whose balance is [=== 0]
    is the last one. *)
Theorem schedule_shape (principal annualRate : num) (m : Z) :
  rejected principal annualRate (IntVal m) = false ->
  (Z.of_nat (length (schedule_of principal annualRate (IntVal m))) <= m)%Z
  /\ (forall k row,
        record_at (schedule_of principal annualRate (IntVal m)) k = Some row ->
        paymentNumber row = (Z.of_nat k + 1)%Z)
  /\ ((Z.of_nat (length (schedule_of principal annualRate (IntVal m))) < m)%Z ->
      exists row,
        last_record (schedule_of principal annualRate (IntVal m)) = Some row
        /\ (remainingBalance row === lit 0) = true)
  /\ (forall k row,
        record_at (schedule_of principal annualRate (IntVal m)) k = Some row ->
        (remainingBalance row === lit 0) = true ->
        length (schedule_of principal annualRate (IntVal m)) = S k).
Proof.
  intros H. rewrite (schedule_accepted _ _ _ H).
  destruct (accepted_months _ _ _ H) as (m' & [= <-] & Hm).
  set (r := monthlyRate_of annualRate). set (P := monthlyPayment_of principal r m).
  pose proof (loop_length (Z.to_nat m) 1 r P principal) as Hlen.
  repeat split.
  - lia.
  - intros k row Hk. apply loop_paymentNumber in Hk. lia.
  - intros Hshort. apply loop_short. lia.
  - intros k row Hk Hz. now apply (loop_break _ _ _ _ _ _ row).
Qed.

(** C8.  For every input the guard accepts, every emitted record's
    [paymentAmount] is the summary's [monthlyPayment]. *)
Theorem payment_is_fixed (principal annualRate : num) (m : Z) :
  rejected principal annualRate (IntVal m) = false ->
  exists s,
    summary_of principal annualRate (IntVal m) = Some s
    /\ forall row, In row (schedule_of principal annualRate (IntVal m)) ->
                   paymentAmount row = monthlyPayment s.
Proof.
  intros H. rewrite (summary_accepted _ _ _ H), (schedule_accepted _ _ _ H).
  eexists; split; [reflexivity|]. cbn [monthlyPayment].
  intros row Hin. now apply loop_paymentAmount in Hin.
Qed.

(** C9.  [calculateLoan] is a function of its three inputs: two states with
    the same inputs get the same summary and the same schedule whatever
    outputs they held before, the outputs are those of [compute], and
    running it a second time changes nothing. *)
Theorem calculateLoan_deterministic (st1 st2 : State num) :
  loanAmount st1 = loanAmount st2 ->
  interestRate st1 = interestRate st2 ->
  loanTermMonths st1 = loanTermMonths st2 ->
  loanSummary (calculateLoan st1) = loanSummary (calculateLoan st2)
  /\ paymentSchedule (calculateLoan st1) = paymentSchedule (calculateLoan st2)
  /\ (loanSummary (calculateLoan st1), paymentSchedule (calculateLoan st1))
     = compute (loanAmount st1) (interestRate st1) (loanTermMonths st1)
  /\ calculateLoan (calculateLoan st1) = calculateLoan st1.
Proof.
  intros Hp Ha Hm. unfold calculateLoan. rewrite <- Hp, <- Ha, <- Hm.
  destruct (compute (loanAmount st1) (interestRate st1) (loanTermMonths st1))
    as [summary schedule] eqn:E.
  cbn. rewrite E. repeat split.
Qed.

End Schedule.

(** * Properties on doubles *)

Module DoubleFacts.
Local Open Scope float_scope.

(** A double above zero is not [NaN], not a zero and not below or at zero. *)
Lemma positive_facts (x : float) :
  (0 <? x) = true ->
  is_nan x = false /\ is_zero x = false
  /\ (x <=? 0) = false /\ (x <? 0) = false /\ (0 <=? x) = true.
Proof.
  unfold is_nan, is_zero.
  rewrite !FloatAxioms.ltb_spec, !FloatAxioms.leb_spec, !FloatAxioms.eqb_spec.
  change (Prim2SF zero) with (S754_zero false).
  change (Prim2SF 0) with (S754_zero false).
  unfold SFltb, SFleb, SFeqb.
  destruct (Prim2SF x) as [s|s| |s m e] eqn:E; try destruct s; simpl; try discriminate;
    intros _; repeat split; try reflexivity;
    rewrite Z.compare_refl, Pos.compare_cont_refl; reflexivity.
Qed.

(** A double that is not [NaN], not a zero and not at or below zero is above
    zero; so is one that is not [NaN], not a zero and not below zero. *)
Lemma above_zero (x : float) :
  is_nan x = false -> is_zero x = false -> (x <=? 0) = false -> (0 <? x) = true.
Proof.
  unfold is_nan, is_zero.
  rewrite !FloatAxioms.ltb_spec, !FloatAxioms.leb_spec, !FloatAxioms.eqb_spec.
  change (Prim2SF zero) with (S754_zero false).
  change (Prim2SF 0) with (S754_zero false).
  unfold SFltb, SFleb, SFeqb.
  destruct (Prim2SF x) as [s|s| |s m e]; try destruct s; simpl; congruence.
Qed.

Lemma above_zero' (x : float) :
  is_nan x = false -> is_zero x = false -> (x <? 0) = false -> (0 <? x) = true.
Proof.
  unfold is_nan, is_zero.
  rewrite !FloatAxioms.ltb_spec, !FloatAxioms.eqb_spec.
  change (Prim2SF zero) with (S754_zero false).
  change (Prim2SF 0) with (S754_zero false).
  unfold SFltb, SFeqb.
  destruct (Prim2SF x) as [s|s| |s m e]; try destruct s; simpl; congruence.
Qed.

(** [Math.max(0, x)] is [NaN] for [NaN], [x] above zero, and [+0] otherwise. *)
Lemma max_0 (x : float) :
  Double.max 0 x = if is_nan x then nan else if 0 <? x then x else 0.
Proof.
  unfold Double.max.
  change (is_nan 0) with false. cbn [orb].
  destruct (is_nan x); [reflexivity|].
  change (Double.max_visit neg_infinity 0) with 0.
  unfold Double.max_visit.
  change (Double.is_nzero 0) with false.
  rewrite andb_false_r. reflexivity.
Qed.

Lemma max_0_nonneg (x : float) :
  (0 <=? Double.max 0 x) = true \/ is_nan (Double.max 0 x) = true.
Proof.
  rewrite max_0.
  destruct (is_nan x) eqn:En; [right; reflexivity|].
  destruct (0 <? x) eqn:El.
  - left. now apply positive_facts.
  - left. reflexivity.
Qed.

(** Zeros and [NaN] are closed under multiplying and dividing by anything. *)
Lemma zero_or_nan_mul_l (x y : spec_float) :
  Double.zero_or_nan x -> Double.zero_or_nan (SF64mul x y).
Proof. destruct x, y; simpl; tauto. Qed.

Lemma zero_or_nan_mul_r (x y : spec_float) :
  Double.zero_or_nan y -> Double.zero_or_nan (SF64mul x y).
Proof. destruct x, y; simpl; tauto. Qed.

Lemma zero_or_nan_div (x y : spec_float) :
  Double.zero_or_nan x -> Double.zero_or_nan (SF64div x y).
Proof. destruct x, y; simpl; tauto. Qed.

Lemma is_zero_spec (x : float) :
  is_zero x = true -> exists s, Prim2SF x = S754_zero s.
Proof.
  unfold is_zero. rewrite FloatAxioms.eqb_spec.
  change (Prim2SF zero) with (S754_zero false). unfold SFeqb.
  destruct (Prim2SF x) as [s|s| |s m e]; try destruct s; simpl; try discriminate;
    intros _; eexists; reflexivity.
Qed.

Lemma zero_or_nan_spec (x : float) :
  Double.zero_or_nan (Prim2SF x) -> is_zero x = true \/ is_nan x = true.
Proof.
  unfold is_zero, is_nan. rewrite !FloatAxioms.eqb_spec.
  change (Prim2SF zero) with (S754_zero false).
  destruct (Prim2SF x) as [s|s| |s m e]; simpl; try tauto.
Qed.

(** With a monthly rate that is a zero, the annuity expression
    [p * r * y / w] is a zero or [NaN] whatever [y] and [w] are. *)
Lemma zero_rate_quotient (p r y w : float) :
  is_zero r = true ->
  is_zero (p * r * y / w) = true \/ is_nan (p * r * y / w) = true.
Proof.
  intros Hr. apply zero_or_nan_spec.
  rewrite div_spec, !mul_spec.
  destruct (is_zero_spec _ Hr) as [s ->].
  apply zero_or_nan_div, zero_or_nan_mul_l, zero_or_nan_mul_r. exact I.
Qed.

(** Once [principal * r] has overflowed to [Infinity], the payment
    [Infinity * y / w] is infinite or [NaN], and the principal part
    [payment - Infinity] added back to the interest [Infinity] is [NaN],
    whatever [y] and [w] are. *)
Lemma overflow_sum_nan (y w : float) :
  is_nan (infinity * y / w - infinity + infinity) = true.
Proof.
  unfold is_nan. rewrite FloatAxioms.eqb_spec, add_spec, sub_spec, div_spec, mul_spec.
  change (Prim2SF infinity) with (S754_infinity false).
  destruct (Prim2SF y) as [sy|sy| |sy my ey]; destruct (Prim2SF w) as [sw|sw| |sw mw ew];
    try destruct sy; try destruct sw; reflexivity.
Qed.

End DoubleFacts.

Section OnDoubles.
Variable pow : float -> Z -> float.
Local Open Scope float_scope.
Local Abbreviation D := (binary64 pow).

(** The guard of line 31 spelled out on doubles. *)
Lemma rejected_double (principal annualRate : float) (months : IntParse) :
  rejected (N := D) principal annualRate months =
  (is_nan principal || is_zero principal) || (is_nan annualRate || is_zero annualRate)
  || int_falsy months
  || (principal <=? 0) || (annualRate <? 0) || int_le0 months.
Proof. reflexivity. Qed.

Lemma accepted_double (principal annualRate : float) (m : Z) :
  (0 <? principal) = true -> (0 <? annualRate) = true -> (0 < m)%Z ->
  rejected (N := D) principal annualRate (IntVal m) = false.
Proof.
  intros Hp Ha Hm. rewrite rejected_double.
  destruct (DoubleFacts.positive_facts _ Hp) as (-> & -> & -> & _).
  destruct (DoubleFacts.positive_facts _ Ha) as (-> & -> & _ & -> & _).
  cbn [int_falsy int_le0 orb].
  destruct (Z.eqb_spec m 0); [lia|]. destruct (Z.leb_spec m 0); [lia|]. reflexivity.
Qed.

(** On doubles the guard lets through exactly the inputs with a principal
    and a rate above zero ([Infinity] included) and a positive term. *)
Lemma accepted_double_iff (principal annualRate : float) (months : IntParse) :
  rejected (N := D) principal annualRate months = false <->
  (0 <? principal) = true /\ (0 <? annualRate) = true
  /\ exists m, months = IntVal m /\ (0 < m)%Z.
Proof.
  split.
  - intros H. destruct (accepted_months _ _ _ H) as (m & -> & Hm).
    rewrite rejected_double, !orb_false_iff in H.
    destruct H as ((((((Hp1 & Hp2) & (Ha1 & Ha2)) & _) & Hp3) & Ha3) & _).
    split; [|split; [|now exists m]].
    + now apply DoubleFacts.above_zero.
    + apply DoubleFacts.above_zero'; assumption.
  - intros (Hp & Ha & m & -> & Hm). now apply accepted_double.
Qed.

(** Every balance the loop records went through [Math.max(0, _)]. *)
Lemma loop_balance_double (todo : nat) (i : Z) (r P balance : float) row :
  In row (loop (N := D) todo i r P balance) ->
  (0 <=? remainingBalance row) = true \/ is_nan (remainingBalance row) = true.
Proof.
  intros Hin. apply loop_In in Hin. destruct Hin as (i' & b & ->).
  apply DoubleFacts.max_0_nonneg.
Qed.

Lemma schedule_balance_double (principal annualRate : float) (months : IntParse) row :
  In row (schedule_of (N := D) principal annualRate months) ->
  (0 <=? remainingBalance row) = true \/ is_nan (remainingBalance row) = true.
Proof.
  unfold schedule_of, compute.
  destruct (rejected principal annualRate months); [contradiction|].
  apply loop_balance_double.
Qed.

(** Whatever [Math.pow] returns, the annuity expression at a monthly rate
    that is a zero is a zero or [NaN]. *)
Lemma annuity_at_zero_rate (principal r : float) (m : Z) :
  is_zero r = true ->
  is_zero (annuity (N := D) principal r m) = true
  \/ is_nan (annuity (N := D) principal r m) = true.
Proof. intros Hr. unfold annuity. now apply DoubleFacts.zero_rate_quotient. Qed.

(** Whatever [Math.pow] returns, once [principal * r] is [Infinity] the first
    record's principal and interest add up to [NaN]. *)
Lemma split_lost_when_product_overflows (principal r : float) (m : Z) :
  principal * r = infinity ->
  is_nan (principalAmount (period (N := D) 1 r (annuity (N := D) principal r m) principal)
          + interestAmount (period (N := D) 1 r (annuity (N := D) principal r m) principal))
  = true.
Proof.
  intros H. unfold annuity. cbn [period principalAmount interestAmount mul sub div binary64].
  rewrite H. apply DoubleFacts.overflow_sum_nan.
Qed.

(** C1, at the failing input and around it: a rate of zero ([+0] or [-0])
    is falsy, so the guard of line 31 rejects it and the result is Empty,
    whatever the principal and the term. *)
Theorem zero_rate_is_rejected (principal : float) (months : IntParse) :
  compute (N := D) 1200 0 (IntVal 12) = Empty
  /\ compute (N := D) principal 0 months = Empty
  /\ compute (N := D) principal (-0) months = Empty.
Proof.
  split; [|split]; apply compute_rejected; rewrite rejected_double.
  - reflexivity.
  - change (is_nan 0 || is_zero 0) with true. now rewrite orb_true_r.
  - change (is_nan (-0) || is_zero (-0)) with true. now rewrite orb_true_r.
Qed.

(** The branch of line 39 that the guard keeps a zero rate from: on
    principal 1200 over 12 months it pays 100 each period, charges no
    interest and ends at balance 0. *)
Lemma zero_rate_branch_is_straight_line :
  monthlyPayment_of (N := D) 1200 (monthlyRate_of (N := D) 0) 12 = 100
  /\ map (fun row => (paymentNumber row, paymentAmount row, interestAmount row))
         (loop (N := D) 12 1 (monthlyRate_of (N := D) 0) 100 1200)
     = map (fun i => (i, 100, 0)) [1; 2; 3; 4; 5; 6; 7; 8; 9; 10; 11; 12]%Z
  /\ option_map remainingBalance
       (last_record (loop (N := D) 12 1 (monthlyRate_of (N := D) 0) 100 1200))
     = Some 0.
Proof. repeat split; vm_compute; reflexivity. Qed.


End OnDoubles.

(** * Properties in exact arithmetic *)

Section OnRationals.
Local Open Scope Q_scope.

Lemma rejected_exact (principal annualRate : Q) (months : IntParse) :
  rejected principal annualRate months =
  (Qeq_bool principal 0 || Qeq_bool annualRate 0 || int_falsy months
   || Qle_bool principal 0 || negb (Qle_bool 0 annualRate) || int_le0 months)%bool.
Proof. reflexivity. Qed.

Lemma accepted_exact (principal annualRate : Q) (months : IntParse) :
  rejected principal annualRate months = false <->
  0 < principal /\ 0 < annualRate /\ exists m, months = IntVal m /\ (0 < m)%Z.
Proof.
  rewrite rejected_exact. split.
  - intros H. rewrite !orb_false_iff in H.
    destruct H as (((((H1 & H2) & H3) & H4) & H5) & H6).
    apply Qeq_bool_neq in H1, H2.
    assert (Hp : ~ principal <= 0) by (rewrite <- Qle_bool_iff; congruence).
    apply negb_false_iff, Qle_bool_iff in H5.
    repeat split; try lra.
    destruct months as [|m]; simpl in *; try discriminate.
    exists m. split; [reflexivity|lia].
  - intros (Hp & Ha & m & -> & Hm).
    assert (E1 : Qeq_bool principal 0 = false).
    { destruct (Qeq_bool principal 0) eqn:E; [|reflexivity].
      apply Qeq_bool_eq in E. lra. }
    assert (E2 : Qeq_bool annualRate 0 = false).
    { destruct (Qeq_bool annualRate 0) eqn:E; [|reflexivity].
      apply Qeq_bool_eq in E. lra. }
    assert (E3 : Qle_bool principal 0 = false).
    { destruct (Qle_bool principal 0) eqn:E; [|reflexivity].
      apply Qle_bool_iff in E. lra. }
    assert (E4 : Qle_bool 0 annualRate = true) by (apply Qle_bool_iff; lra).
    rewrite E1, E2, E3, E4. simpl.
    destruct (Z.eqb_spec m 0); [lia|]. destruct (Z.leb_spec m 0); [lia|]. reflexivity.
Qed.

Lemma monthlyRate_exact (annualRate : Q) :
  monthlyRate_of annualRate == annualRate / 1200.
Proof. unfold monthlyRate_of. simpl. field. Qed.

Lemma monthlyRate_pos (annualRate : Q) :
  0 < annualRate -> 0 < monthlyRate_of annualRate.
Proof.
  intros Ha. rewrite monthlyRate_exact.
  apply Qlt_shift_div_l; lra.
Qed.

Lemma monthlyRate_nonzero (annualRate : Q) :
  0 < annualRate ->
  strict_eq (monthlyRate_of annualRate) (lit 0) = false.
Proof.
  intros Ha. apply monthlyRate_pos in Ha.
  change (Qeq_bool (monthlyRate_of annualRate) 0 = false).
  destruct (Qeq_bool _ _) eqn:E; [|reflexivity].
  apply Qeq_bool_eq in E. rewrite E in Ha. discriminate Ha.
Qed.

Section ClosedForm.
Variables (p r : Q) (m : Z).
Hypothesis Hp : 0 < p.
Hypothesis Hr : 0 < r.
Hypothesis Hm : (0 < m)%Z.

Lemma growth_gt_1 : 1 < (1 + r) ^ m.
Proof. apply Qpower_1_lt; [lra|exact Hm]. Qed.

Lemma growth_succ (k : Z) : (0 <= k)%Z -> (1 + r) ^ (k + 1) == (1 + r) ^ k * (1 + r).
Proof.
  intros Hk. rewrite Qpower_plus by lra. now rewrite Qpower_1_r.
Qed.

Lemma balance_after_0 : balance_after p r m 0 == p.
Proof.
  unfold balance_after. pose proof growth_gt_1 as HA.
  change ((1 + r) ^ 0) with 1. field. lra.
Qed.

Lemma balance_after_m : balance_after p r m m == 0.
Proof.
  unfold balance_after. pose proof growth_gt_1 as HA. field. lra.
Qed.

Lemma balance_after_anti (k k' : Z) :
  (k < k')%Z -> balance_after p r m k' < balance_after p r m k.
Proof.
  intros Hk. unfold balance_after. pose proof growth_gt_1 as HA.
  assert (Hq : (1 + r) ^ k < (1 + r) ^ k') by (apply Qpower_lt_compat_l; [exact Hk|lra]).
  unfold Qdiv. apply Qmult_lt_compat_r.
  - apply Qinv_lt_0_compat. lra.
  - apply Qmult_lt_l; [exact Hp|]. lra.
Qed.

Lemma balance_after_pos (k : Z) : (k < m)%Z -> 0 < balance_after p r m k.
Proof.
  intros Hk. rewrite <- balance_after_m. now apply balance_after_anti.
Qed.

Lemma balance_after_nonneg (k : Z) : (k <= m)%Z -> 0 <= balance_after p r m k.
Proof.
  intros Hk. destruct (Z.eq_dec k m) as [->|Hne].
  - rewrite balance_after_m. apply Qle_refl.
  - apply Qlt_le_weak, balance_after_pos. lia.
Qed.

(** One pass of the loop body takes the closed form from [k] to [k + 1]. *)
Lemma period_exact (i k : Z) (bal : Q) :
  (0 <= k < m)%Z -> bal == balance_after p r m k ->
  remainingBalance (period i r (annuity p r m) bal) == balance_after p r m (k + 1).
Proof.
  intros Hk Hbal. pose proof growth_gt_1 as HA.
  assert (Hx : bal - (annuity p r m - bal * r) == balance_after p r m (k + 1)).
  { rewrite Hbal. unfold annuity, balance_after. cbn [lit add sub mul div Math_pow rationals].
    change (inject_Z 1) with 1. rewrite growth_succ by lia. field. lra. }
  assert (Hn : 0 <= balance_after p r m (k + 1)) by (apply balance_after_nonneg; lia).
  cbn [period remainingBalance lit add sub mul div Math_max rationals].
  change (inject_Z 0) with 0.
  destruct (Qle_bool 0 _) eqn:E.
  - exact Hx.
  - rewrite <- Hx in Hn. apply Qle_bool_iff in Hn. congruence.
Qed.

Lemma loop_exact (todo : nat) : forall (k : Z) (bal : Q),
  (0 <= k)%Z -> Z.of_nat todo = (m - k)%Z -> bal == balance_after p r m k ->
  length (loop todo (k + 1) r (annuity p r m) bal) = todo
  /\ forall j row, record_at (loop todo (k + 1) r (annuity p r m) bal) j = Some row ->
       remainingBalance row == balance_after p r m (k + 1 + Z.of_nat j).
Proof.
  unfold record_at.
  induction todo as [|todo IH]; intros k bal Hk Htodo Hbal.
  - split; [reflexivity|]. intros [|j] row; discriminate.
  - assert (Hstep := period_exact (k + 1) k bal ltac:(lia) Hbal).
    rewrite loop_S; cbv zeta.
    set (row0 := period (k + 1) r (annuity p r m) bal) in *.
    destruct todo as [|todo'].
    + (* the last period *)
      assert (Hrows : (if strict_eq (remainingBalance row0) (lit 0) then [row0]
                       else row0 :: loop 0 (k + 1 + 1) r (annuity p r m) (remainingBalance row0))
                      = [row0]) by (destruct (strict_eq _ _); reflexivity).
      rewrite Hrows. split; [reflexivity|].
      intros [|[|j]] row; try discriminate. intros [= <-].
      now rewrite Z.add_0_r.
    + assert (Hpos : 0 < balance_after p r m (k + 1)) by (apply balance_after_pos; lia).
      assert (E : strict_eq (remainingBalance row0) (lit 0) = false).
      { change (Qeq_bool (remainingBalance row0) 0 = false).
        destruct (Qeq_bool _ _) eqn:E; [|reflexivity].
        apply Qeq_bool_eq in E. rewrite E in Hstep. rewrite <- Hstep in Hpos.
        discriminate Hpos. }
      rewrite E.
      destruct (IH (k + 1)%Z (remainingBalance row0) ltac:(lia) ltac:(lia) Hstep)
        as [Hlen Hrows].
      split; [cbn [length]; now rewrite Hlen|].
      intros [|j] row Hj.
      * injection Hj as <-. now rewrite Z.add_0_r.
      * apply Hrows in Hj. rewrite Hj.
        replace (k + 1 + 1 + Z.of_nat j)%Z with (k + 1 + Z.of_nat (S j))%Z by lia.
        reflexivity.
Qed.
End ClosedForm.
(** The schedule of an accepted input: the loop run on the annuity payment. *)
Lemma schedule_exact (principal annualRate : Q) (m : Z) :
  rejected principal annualRate (IntVal m) = false ->
  0 < principal /\ 0 < monthlyRate_of annualRate /\ (0 < m)%Z
  /\ schedule_of principal annualRate (IntVal m)
     = loop (Z.to_nat m) 1 (monthlyRate_of annualRate)
            (annuity principal (monthlyRate_of annualRate) m) principal.
Proof.
  intros H. rewrite (schedule_accepted _ _ _ H).
  apply accepted_exact in H. destruct H as (Hp & Ha & m' & [= <-] & Hm).
  repeat split; auto using monthlyRate_pos.
  unfold monthlyPayment_of. now rewrite (monthlyRate_nonzero _ Ha).
Qed.

(** Its record at position [j] holds the closed-form balance after [j + 1]
    payments, and there are [m] records. *)
Lemma balances_exact (principal annualRate : Q) (m : Z) :
  rejected principal annualRate (IntVal m) = false ->
  length (schedule_of principal annualRate (IntVal m)) = Z.to_nat m
  /\ forall j row,
       record_at (schedule_of principal annualRate (IntVal m)) j = Some row ->
       remainingBalance row
       == balance_after principal (monthlyRate_of annualRate) m (1 + Z.of_nat j).
Proof.
  intros H. destruct (schedule_exact _ _ _ H) as (Hp & Hr & Hm & ->).
  apply (loop_exact principal (monthlyRate_of annualRate) m Hp Hr Hm (Z.to_nat m) 0).
  - lia.
  - lia.
  - symmetry. now apply balance_after_0.
Qed.

(** In exact arithmetic the balance never rises, never goes below zero and
    is zero at the last record, which is record [m]. *)
Lemma balance_exact (principal annualRate : Q) (m : Z) :
  rejected principal annualRate (IntVal m) = false ->
  Z.of_nat (length (schedule_of principal annualRate (IntVal m))) = m
  /\ (forall row, In row (schedule_of principal annualRate (IntVal m)) ->
                  0 <= remainingBalance row)
  /\ (forall k r1 r2,
        record_at (schedule_of principal annualRate (IntVal m)) k = Some r1 ->
        record_at (schedule_of principal annualRate (IntVal m)) (S k) = Some r2 ->
        remainingBalance r2 <= remainingBalance r1)
  /\ (exists row,
        last_record (schedule_of principal annualRate (IntVal m)) = Some row
        /\ remainingBalance row == 0).
Proof.
  intros H. destruct (schedule_exact _ _ _ H) as (Hp & Hr & Hm & _).
  destruct (balances_exact _ _ _ H) as [Hlen Hrows].
  set (rows := schedule_of principal annualRate (IntVal m)) in *.
  split; [lia|]. split; [|split].
  - intros row Hin. apply In_nth_error in Hin. destruct Hin as [j Hj].
    assert (Hlt : (j < length rows)%nat) by (apply nth_error_Some; congruence).
    rewrite (Hrows j row Hj).
    apply (balance_after_nonneg principal _ m Hp Hr Hm). lia.
  - intros k r1 r2 H1 H2.
    rewrite (Hrows _ _ H1), (Hrows _ _ H2).
    apply Qlt_le_weak, (balance_after_anti principal _ m Hp Hr Hm). lia.
  - rewrite last_record_at.
    destruct (record_at rows (pred (length rows))) as [row|] eqn:E.
    + exists row. split; [reflexivity|].
      rewrite (Hrows _ _ E).
      replace (1 + Z.of_nat (pred (length rows)))%Z with m by lia.
      now apply balance_after_m.
    + apply nth_error_None in E. lia.
Qed.

(** In exact arithmetic principal and interest add up to the payment. *)
Lemma split_exact (principal annualRate : Q) (m : Z) :
  rejected principal annualRate (IntVal m) = false ->
  forall row, In row (schedule_of principal annualRate (IntVal m)) ->
              principalAmount row + interestAmount row == paymentAmount row.
Proof.
  intros H row Hin. rewrite (schedule_accepted _ _ _ H) in Hin.
  apply loop_principalAmount in Hin. rewrite Hin.
  cbn [sub rationals]. ring.
Qed.

(** The claim C3 as it is worded, in exact arithmetic: a rate above zero
    gives the annuity payment, and the schedule follows the recurrence. *)
Lemma annuity_payment_exact (principal annualRate : Q) (m : Z) :
  0 < principal -> 0 < annualRate -> (0 < m)%Z ->
  exists s,
    summary_of principal annualRate (IntVal m) = Some s
    /\ monthlyPayment s = annuity principal (monthlyRate_of annualRate) m
    /\ follows_recurrence (monthlyRate_of annualRate) (monthlyPayment s) principal
         (schedule_of principal annualRate (IntVal m)).
Proof.
  intros Hp Ha Hm.
  assert (H : rejected principal annualRate (IntVal m) = false).
  { apply accepted_exact. repeat split; auto. exists m. auto. }
  rewrite (summary_accepted _ _ _ H), (schedule_accepted _ _ _ H).
  eexists; split; [reflexivity|]. cbn [monthlyPayment]. split.
  - unfold monthlyPayment_of. now rewrite (monthlyRate_nonzero _ Ha).
  - apply loop_follows.
Qed.


End OnRationals.

(** * The claims that differ between doubles and exact arithmetic *)



(** * Runs on concrete inputs *)

Local Open Scope float_scope.

(** ** Inputs at which a claim fails as it is worded *)


(** C3: the rate [2^-1074] (the double 5e-324) is above zero and accepted,
    but [2^-1074 / 100] rounds to 0, so line 38 takes the straight-line
    branch: the payment on 1200 over 12 months is 100, while the annuity
    expression is [NaN] (a zero or [NaN] whatever [Math.pow] returns, by
    [annuity_at_zero_rate]). *)
Lemma annuity_not_used_when_rate_underflows :
  (0 <? 0x1p-1074)%float = true
  /\ rejected (N := run64) 1200 0x1p-1074 (IntVal 12) = false
  /\ (monthlyRate_of (N := run64) 0x1p-1074 =? 0)%float = true
  /\ option_map monthlyPayment (summary_of (N := run64) 1200 0x1p-1074 (IntVal 12))
     = Some 100%float
  /\ is_nan (annuity (N := run64) 1200 (monthlyRate_of (N := run64) 0x1p-1074) 12)
     = true.
Proof. repeat split; vm_compute; reflexivity. Qed.



(** ** Further runs on doubles *)

(** At 1200 percent a year the monthly rate is 1 and over 360 months
    [(1 + r)^360 - 1] rounds to [2^360]: the payment equals the interest, no
    principal is ever repaid, and the schedule ends with the whole principal
    outstanding. *)
Lemma balance_stuck_at_principal :
  option_map remainingBalance
    (last_record (schedule_of (N := run64) 1000 1200 (IntVal 360)))
  = Some 1000%float.
Proof. vm_compute. reflexivity. Qed.

(** At 1800 percent a year over 480 months, with the power by repeated
    multiplication, the payment comes out one rounding step below the first
    interest, 375000 (it is 374999.99999999994): the first principal part is negative and the balance
    rises above the principal.  (Which inputs do this depends on the last
    bits of [Math.pow].) *)
Lemma balance_can_rise_on_doubles :
  option_map monthlyPayment (summary_of (N := run64) 250000 1800 (IntVal 480))
  = Some 0x1.6e35fffffffffp+18%float
  /\ exists row,
       record_at (schedule_of (N := run64) 250000 1800 (IntVal 480)) 0 = Some row
       /\ interestAmount row = 375000%float
       /\ (principalAmount row <? 0)%float = true
       /\ (250000 <? remainingBalance row)%float = true.
Proof.
  split; [vm_compute; reflexivity|].
  eexists. split; [vm_compute; reflexivity|].
  repeat split; vm_compute; reflexivity.
Qed.

(** The scenario of the specification, section 8: 250000 at 4.5 percent over
    360 months pays 1266.71 a month (1266.7132745647141 with the power by
    repeated multiplication) in 360 records. *)
Lemma scenario_250000_at_4_5_over_360 :
  option_map monthlyPayment (summary_of (N := run64) 250000 4.5 (IntVal 360))
  = Some 0x1.3cada64a5c21p+10%float
  /\ length (schedule_of (N := run64) 250000 4.5 (IntVal 360)) = 360%nat.
Proof. split; vm_compute; reflexivity. Qed.

(** ** Inputs at which the theorems apply *)

(** C3 at 250000 at 4.5 percent over 360 months: the monthly rate is not 0,
    the payment is the annuity expression and the schedule follows the
    recurrence. *)
Lemma payment_formula_and_recurrence_witness :
  rejected (N := run64) 250000 4.5 (IntVal 360) = false
  /\ (monthlyRate_of (N := run64) 4.5 =? 0)%float = false
  /\ exists s,
       summary_of (N := run64) 250000 4.5 (IntVal 360) = Some s
       /\ monthlyPayment s
          = annuity (N := run64) 250000 (monthlyRate_of (N := run64) 4.5) 360
       /\ follows_recurrence (N := run64) (monthlyRate_of (N := run64) 4.5)
            (monthlyPayment s) 250000%float
            (schedule_of (N := run64) 250000 4.5 (IntVal 360)).
Proof.
  split; [reflexivity|]. split; [reflexivity|].
  destruct (payment_formula_and_recurrence (N := run64) 250000%float 4.5%float 360
              eq_refl) as (s & Hs & Hformula & Hrec).
  exists s. split; [exact Hs|]. split; [exact (Hformula eq_refl)|exact Hrec].
Defined.

(** C4 at [2^1023] at 1200 percent over 12 months: the schedule stops after
    one record of twelve, and the summary is still the nominal one. *)
Lemma summary_is_nominal_witness :
  rejected (N := run64) 0x1p1023 1200 (IntVal 12) = false
  /\ length (schedule_of (N := run64) 0x1p1023 1200 (IntVal 12)) = 1%nat
  /\ exists s,
       summary_of (N := run64) 0x1p1023 1200 (IntVal 12) = Some s
       /\ totalPayments s = (monthlyPayment s * 12)%float
       /\ totalInterest s = (totalPayments s - 0x1p1023)%float
       /\ totalAmount s = totalPayments s.
Proof.
  split; [reflexivity|]. split; [vm_compute; reflexivity|].
  apply (summary_is_nominal (N := run64) 0x1p1023%float 1200%float 12).
  reflexivity.
Defined.

(** C7 at the same input, whose schedule is shorter than the term. *)
Lemma schedule_shape_witness :
  rejected (N := run64) 0x1p1023%float 1200%float (IntVal 12) = false
  /\ (Z.of_nat (length (schedule_of (N := run64) 0x1p1023%float 1200%float (IntVal 12))) <= 12)%Z
  /\ (forall k row,
        record_at (schedule_of (N := run64) 0x1p1023%float 1200%float (IntVal 12)) k = Some row ->
        paymentNumber row = (Z.of_nat k + 1)%Z)
  /\ ((Z.of_nat (length (schedule_of (N := run64) 0x1p1023%float 1200%float (IntVal 12))) < 12)%Z ->
      exists row,
        last_record (schedule_of (N := run64) 0x1p1023%float 1200%float (IntVal 12)) = Some row
        /\ (remainingBalance row =? 0)%float = true)
  /\ (forall k row,
        record_at (schedule_of (N := run64) 0x1p1023%float 1200%float (IntVal 12)) k = Some row ->
        (remainingBalance row =? 0)%float = true ->
        length (schedule_of (N := run64) 0x1p1023%float 1200%float (IntVal 12)) = S k).
Proof.
  split; [reflexivity|].
  apply (schedule_shape (N := run64) 0x1p1023%float 1200%float 12).
  reflexivity.
Defined.

(** C8 at 250000 at 4.5 percent over 360 months. *)
Lemma payment_is_fixed_witness :
  rejected (N := run64) 250000 4.5 (IntVal 360) = false
  /\ exists s,
       summary_of (N := run64) 250000 4.5 (IntVal 360) = Some s
       /\ forall row, In row (schedule_of (N := run64) 250000 4.5 (IntVal 360)) ->
                      paymentAmount row = monthlyPayment s.
Proof.
  split; [reflexivity|].
  apply (payment_is_fixed (N := run64) 250000%float 4.5%float 360).
  reflexivity.
Defined.

(** C9 at two states with the same inputs, one fresh and one holding the
    outputs of an earlier calculation. *)
Lemma calculateLoan_deterministic_witness :
  loanAmount fresh_state = loanAmount used_state
  /\ interestRate fresh_state = interestRate used_state
  /\ loanTermMonths fresh_state = loanTermMonths used_state
  /\ paymentSchedule fresh_state <> paymentSchedule used_state
  /\ loanSummary (calculateLoan (N := run64) fresh_state)
     = loanSummary (calculateLoan (N := run64) used_state)
  /\ paymentSchedule (calculateLoan (N := run64) fresh_state)
     = paymentSchedule (calculateLoan (N := run64) used_state)
  /\ (loanSummary (calculateLoan (N := run64) fresh_state),
      paymentSchedule (calculateLoan (N := run64) fresh_state))
     = compute (N := run64) 250000 4.5 (IntVal 360)
  /\ calculateLoan (N := run64) (calculateLoan (N := run64) fresh_state)
     = calculateLoan (N := run64) fresh_state.
Proof.
  repeat (split; [reflexivity|]).
  split; [vm_compute; discriminate|].
  exact (calculateLoan_deterministic (N := run64) fresh_state used_state
           eq_refl eq_refl eq_refl).
Defined.





(** * The component around the engine *)

Section Rendering.
Context {num : Type} {N : JSNumber num}.
Local Open Scope js_scope.

(** The payment numbers of the loop count up from its counter. *)
Lemma loop_keys (todo : nat) : forall (i : Z) (r P balance : num),
  map paymentNumber (loop todo i r P balance)
  = map (fun k => (i + Z.of_nat k)%Z) (seq 0 (length (loop todo i r P balance))).
Proof.
  induction todo as [|todo IH]; intros i r P balance.
  - reflexivity.
  - rewrite loop_S; cbv zeta.
    destruct (remainingBalance (period i r P balance) === lit 0).
    + cbn. now rewrite Z.add_0_r.
    + cbn [map length seq]. f_equal.
      * cbn. now rewrite Z.add_0_r.
      * rewrite IH, <- seq_shift, map_map.
        apply map_ext. intros k. lia.
Qed.

(** The two outputs of [compute] come together: a summary and at least one
    record, or neither. *)
Lemma compute_together (principal annualRate : num) (months : IntParse) :
  (fst (compute principal annualRate months) = None
   /\ snd (compute principal annualRate months) = [])
  \/ (exists s row rows,
        compute principal annualRate months = (Some s, row :: rows)).
Proof.
  destruct (rejected principal annualRate months) eqn:E.
  - left. now rewrite (compute_rejected _ _ _ E).
  - right. destruct (accepted_months _ _ _ E) as (m & -> & Hm).
    rewrite (compute_accepted _ _ _ E). cbv zeta. cbn [int_value].
    destruct (loop (Z.to_nat m) 1 (monthlyRate_of annualRate)
                (monthlyPayment_of principal (monthlyRate_of annualRate) m) principal)
      as [|row rows] eqn:El.
    + destruct (Z.to_nat m) as [|todo] eqn:Et; [lia|].
      now apply loop_nonempty in El.
    + eexists; eexists; eexists; reflexivity.
Qed.

Lemma compute_keys (principal annualRate : num) (months : IntParse) :
  map paymentNumber (snd (compute principal annualRate months))
  = map Z.of_nat (seq 1 (length (snd (compute principal annualRate months)))).
Proof.
  unfold compute. destruct (rejected principal annualRate months); [reflexivity|].
  cbv zeta. cbn [snd]. rewrite loop_keys, <- seq_shift, map_map.
  apply map_ext. intros k. lia.
Qed.

(** What [calculateLoan] leaves in the state. *)
Lemma calculateLoan_outputs (st : State num) :
  loanSummary (calculateLoan st)
  = fst (compute (loanAmount st) (interestRate st) (loanTermMonths st))
  /\ paymentSchedule (calculateLoan st)
     = snd (compute (loanAmount st) (interestRate st) (loanTermMonths st)).
Proof.
  unfold calculateLoan.
  destruct (compute (loanAmount st) (interestRate st) (loanTermMonths st)).
  split; reflexivity.
Qed.

Lemma handle_outputs (ev : InputChange num) (st : State num) :
  loanSummary (handle ev st) = loanSummary st
  /\ paymentSchedule (handle ev st) = paymentSchedule st.
Proof. destruct ev; split; reflexivity. Qed.

Lemma NoDup_of_nat (l : list nat) : NoDup l -> NoDup (map Z.of_nat l).
Proof.
  induction 1 as [|x l Hx _ IH]; cbn [map]; constructor; [|exact IH].
  rewrite in_map_iff. intros (y & Hy & Hin).
  apply Nat2Z.inj in Hy. now subst.
Qed.

(** X1.  In every state the component renders, the summary panel and the
    payment table are shown together or not at all: there is a summary
    exactly when the schedule has a record. *)
Theorem summary_and_table_together (st : State num) :
  renders st -> shows_summary st = shows_table st.
Proof.
  unfold shows_summary, shows_table.
  induction 1 as [st Hrows Hsum|ev st _ IH|st _ _].
  - now rewrite Hrows, Hsum.
  - destruct (handle_outputs ev st) as [-> ->]. exact IH.
  - destruct (calculateLoan_outputs st) as [-> ->].
    destruct (compute_together (loanAmount st) (interestRate st) (loanTermMonths st))
      as [[-> ->]|(s & row & rows & ->)]; reflexivity.
Qed.

(** X2.  In every state the component renders, the keys of the table rows
    are 1, 2, ..., one per row: no key is used twice. *)
Theorem row_keys_consecutive (st : State num) :
  renders st ->
  row_keys st = map Z.of_nat (seq 1 (length (paymentSchedule st)))
  /\ NoDup (row_keys st).
Proof.
  intros H.
  assert (Hkeys : row_keys st = map Z.of_nat (seq 1 (length (paymentSchedule st)))).
  { unfold row_keys. induction H as [st Hrows Hsum|ev st _ IH|st _ _].
    - now rewrite Hrows.
    - destruct (handle_outputs ev st) as [_ ->]. exact IH.
    - destruct (calculateLoan_outputs st) as [_ ->]. apply compute_keys. }
  split; [exact Hkeys|]. rewrite Hkeys.
  apply NoDup_of_nat, seq_NoDup.
Qed.

End Rendering.

(** * Edge behaviour on doubles *)

Module DoubleSign.
Local Open Scope float_scope.

(** Rounding a positive magnitude gives nothing below zero. *)
Lemma nonneg_round (m e : Z) (l : location) :
  nonneg_or_nan (binary_round_aux prec emax false m e l).
Proof.
  unfold binary_round_aux.
  destruct (shr_fexp prec emax m e l) as [mrs e1].
  destruct (shr_fexp prec emax _ e1 loc_Exact) as [mrs2 e2].
  destruct (shr_m mrs2); [exact I| |exact I].
  destruct (Z.leb e2 (emax - prec)); exact I.
Qed.

Lemma nonneg_mul (x y : spec_float) :
  nonneg_or_nan x -> nonneg_or_nan y -> nonneg_or_nan (SF64mul x y).
Proof.
  destruct x as [sx|sx| |sx mx ex], y as [sy|sy| |sy my ey];
    try destruct sx; try destruct sy; cbn; try tauto.
  intros _ _. apply nonneg_round.
Qed.

(** Dividing by a positive finite number keeps the sign. *)
Lemma nonneg_div (x : spec_float) (my : positive) (ey : Z) :
  nonneg_or_nan x -> nonneg_or_nan (SF64div x (S754_finite false my ey)).
Proof.
  destruct x as [sx|sx| |sx mx ex]; try destruct sx; cbn; try tauto.
  intros _. destruct (SFdiv_core_binary prec emax (Z.pos mx) ex (Z.pos my) ey) as [[mz ez] lz].
  apply nonneg_round.
Qed.

Lemma above_zero_nonneg (x : float) :
  (0 <? x) = true -> nonneg_or_nan (Prim2SF x).
Proof.
  rewrite FloatAxioms.ltb_spec. change (Prim2SF 0) with (S754_zero false).
  unfold SFltb.
  destruct (Prim2SF x) as [s|s| |s m e]; try destruct s; cbn; try discriminate; tauto.
Qed.

Lemma nonneg_spec (x : float) :
  nonneg_or_nan (Prim2SF x) <-> (0 <=? x) = true \/ is_nan x = true.
Proof.
  unfold is_nan. rewrite FloatAxioms.leb_spec, FloatAxioms.eqb_spec.
  change (Prim2SF 0) with (S754_zero false). unfold SFleb, SFeqb.
  destruct (Prim2SF x) as [s|s| |s m e]; try destruct s; cbn;
    rewrite ?Z.compare_refl, ?Pos.compare_cont_refl; cbn;
    intuition discriminate.
Qed.

(** The only double that is not equal to itself is [NaN]. *)
Lemma is_nan_eq (x : float) : is_nan x = true -> x = nan.
Proof.
  unfold is_nan. rewrite FloatAxioms.eqb_spec. unfold SFeqb. intros H.
  rewrite <- (SF2Prim_Prim2SF x).
  destruct (Prim2SF x) as [s|s| |s m e]; try destruct s; cbn in H;
    rewrite ?Z.compare_refl, ?Pos.compare_cont_refl in H; try discriminate.
  reflexivity.
Qed.

Lemma sub_nan_l (y : float) : nan - y = nan.
Proof.
  apply Prim2SF_inj. rewrite sub_spec. change (Prim2SF nan) with S754_nan.
  now destruct (Prim2SF y).
Qed.

Lemma sub_nan_r (x : float) : x - nan = nan.
Proof.
  apply Prim2SF_inj. rewrite sub_spec. change (Prim2SF nan) with S754_nan.
  now destruct (Prim2SF x).
Qed.

(** A finite double is a zero or a finite number on its specification. *)
Lemma is_finite_spec (x : float) :
  is_finite x = true ->
  match Prim2SF x with
  | S754_zero _ | S754_finite _ _ _ => True
  | _ => False
  end.
Proof.
  unfold is_finite, is_nan, is_infinity.
  rewrite !FloatAxioms.eqb_spec, abs_spec.
  change (Prim2SF infinity) with (S754_infinity false). unfold SFeqb.
  destruct (Prim2SF x) as [s|s| |s m e]; try destruct s; cbn; try discriminate; tauto.
Qed.

Lemma infinity_sub_finite (y : float) :
  is_finite y = true -> infinity - y = infinity.
Proof.
  intros H. apply is_finite_spec in H.
  apply Prim2SF_inj. rewrite sub_spec. change (Prim2SF infinity) with (S754_infinity false).
  destruct (Prim2SF y); try contradiction; reflexivity.
Qed.

Lemma finite_sub_infinity (x : float) :
  is_finite x = true -> x - infinity = neg_infinity.
Proof.
  intros H. apply is_finite_spec in H.
  apply Prim2SF_inj. rewrite sub_spec.
  change (Prim2SF infinity) with (S754_infinity false).
  change (Prim2SF neg_infinity) with (S754_infinity true).
  destruct (Prim2SF x); try contradiction; reflexivity.
Qed.

End DoubleSign.

Section EdgesOnDoubles.
Variable pow : float -> Z -> float.
Local Open Scope float_scope.
Local Abbreviation D := (binary64 pow).

(** A rate above zero gives a monthly rate that is not below zero. *)
Lemma monthlyRate_nonneg (annualRate : float) :
  (0 <? annualRate) = true ->
  nonneg_or_nan (Prim2SF (monthlyRate_of (N := D) annualRate)).
Proof.
  intros Ha. unfold monthlyRate_of. cbn [div lit binary64].
  rewrite !div_spec.
  assert (H100 : exists m e, Prim2SF (Double.of_Z 100) = S754_finite false m e)
    by (eexists; eexists; vm_compute; reflexivity).
  assert (H12 : exists m e, Prim2SF (Double.of_Z 12) = S754_finite false m e)
    by (eexists; eexists; vm_compute; reflexivity).
  destruct H100 as (m1 & e1 & ->). destruct H12 as (m2 & e2 & ->).
  apply DoubleSign.nonneg_div, DoubleSign.nonneg_div.
  now apply DoubleSign.above_zero_nonneg.
Qed.

(** Every record of the loop is one pass of its body on a balance that is
    the entry balance or a recorded one, hence not below zero if the entry
    balance is not. *)
Lemma loop_In_balance (todo : nat) : forall (i : Z) (r P balance : float) row,
  nonneg_or_nan (Prim2SF balance) ->
  In row (loop (N := D) todo i r P balance) ->
  exists i' balance',
    row = period (N := D) i' r P balance' /\ nonneg_or_nan (Prim2SF balance').
Proof.
  induction todo as [|todo IH]; intros i r P balance row Hb Hin.
  - contradiction.
  - rewrite loop_S in Hin; cbv zeta in Hin.
    destruct (strict_eq (remainingBalance (period i r P balance)) (lit 0)).
    + destruct Hin as [<-|[]]. now exists i, balance.
    + destruct Hin as [<-|Hin]; [now exists i, balance|].
      apply IH in Hin; [exact Hin|].
      apply DoubleSign.nonneg_spec, DoubleFacts.max_0_nonneg.
Qed.

(** X3.  On doubles, whatever [Math.pow] returns, no record of any schedule
    carries an interest below zero: every [interestAmount] is [>= 0] or
    [NaN]. *)
Theorem interest_never_negative (principal annualRate : float) (months : IntParse) :
  Forall (fun row => (0 <=? interestAmount row) = true
                     \/ is_nan (interestAmount row) = true)
         (schedule_of (N := D) principal annualRate months).
Proof.
  apply Forall_forall. intros row Hin.
  unfold schedule_of, compute in Hin.
  destruct (rejected (N := D) principal annualRate months) eqn:E; [contradiction|].
  apply accepted_double_iff in E. destruct E as (Hp & Ha & _).
  cbv zeta in Hin. cbn [snd] in Hin.
  apply loop_In_balance in Hin; [|now apply DoubleSign.above_zero_nonneg].
  destruct Hin as (i' & b & -> & Hb).
  apply DoubleSign.nonneg_spec. cbn [period interestAmount mul binary64].
  rewrite mul_spec. apply DoubleSign.nonneg_mul; [exact Hb|].
  now apply monthlyRate_nonneg.
Qed.

(** With a payment that is [NaN] the loop never meets its [break]: it runs
    all its passes, and every principal part and balance is [NaN]. *)
Lemma loop_nan_payment (todo : nat) : forall (i : Z) (r balance : float),
  length (loop (N := D) todo i r nan balance) = todo
  /\ Forall (fun row => is_nan (principalAmount row) = true
                        /\ is_nan (remainingBalance row) = true)
            (loop (N := D) todo i r nan balance).
Proof.
  induction todo as [|todo IH]; intros i r balance.
  - split; [reflexivity|constructor].
  - rewrite loop_S; cbv zeta.
    assert (Hrow : principalAmount (period (N := D) i r nan balance) = nan
                   /\ remainingBalance (period (N := D) i r nan balance) = nan).
    { cbn [period principalAmount remainingBalance sub mul lit Math_max binary64].
      rewrite DoubleSign.sub_nan_l, DoubleSign.sub_nan_r. split; reflexivity. }
    destruct Hrow as [Hpa Hrb]. rewrite Hrb.
    change (strict_eq (JSNumber := D) nan (lit 0)) with false. cbv iota.
    destruct (IH (i + 1)%Z r nan) as [Hlen Hall].
    split; [cbn [length]; now rewrite Hlen|].
    constructor; [|exact Hall]. rewrite Hpa, Hrb. split; reflexivity.
Qed.


(** X5.  On doubles, for an accepted input with a finite principal and a
    finite first interest whose monthly payment comes out [Infinity], the
    schedule is a single record, whatever the term: its principal part is
    [Infinity] and it leaves the balance 0. *)
Theorem infinite_payment_single_record (principal annualRate : float) (m : Z) :
  rejected (N := D) principal annualRate (IntVal m) = false ->
  monthlyPayment_of (N := D) principal (monthlyRate_of (N := D) annualRate) m = infinity ->
  is_finite principal = true ->
  is_finite (principal * monthlyRate_of (N := D) annualRate) = true ->
  exists row,
    schedule_of (N := D) principal annualRate (IntVal m) = [row]
    /\ paymentNumber row = 1%Z
    /\ principalAmount row = infinity
    /\ remainingBalance row = 0.
Proof.
  intros H HP Hp Hi. rewrite (schedule_accepted _ _ _ H), HP.
  destruct (accepted_months _ _ _ H) as (m' & [= <-] & Hm).
  destruct (Z.to_nat m) as [|todo] eqn:E; [lia|].
  rewrite loop_S; cbv zeta.
  set (r := monthlyRate_of (N := D) annualRate) in *.
  assert (Hpa : principalAmount (period (N := D) 1 r infinity principal) = infinity).
  { cbn [period principalAmount sub mul binary64].
    now apply DoubleSign.infinity_sub_finite. }
  assert (Hrb : remainingBalance (period (N := D) 1 r infinity principal) = 0).
  { cbn [period remainingBalance sub mul lit Math_max binary64].
    rewrite (DoubleSign.infinity_sub_finite _ Hi), (DoubleSign.finite_sub_infinity _ Hp).
    reflexivity. }
  rewrite Hrb. change (strict_eq (JSNumber := D) 0 (lit 0)) with true. cbv iota.
  eexists. split; [reflexivity|]. repeat split; assumption.
Qed.

End EdgesOnDoubles.

(** * The accounts of a schedule in exact arithmetic *)

Section Accounts.
Local Open Scope Q_scope.

Section ClosedFormParts.
Variables (p r : Q) (m : Z).
Hypothesis Hp : 0 < p.
Hypothesis Hr : 0 < r.
Hypothesis Hm : (0 < m)%Z.

(** One period takes the closed-form balance from [k] to [k + 1]. *)
Lemma balance_step (k : Z) (bal : Q) :
  (0 <= k < m)%Z -> bal == balance_after p r m k ->
  bal - (annuity p r m - bal * r) == balance_after p r m (k + 1).
Proof.
  intros Hk Hbal. pose proof (growth_gt_1 r m Hr Hm) as HA.
  rewrite Hbal. unfold annuity, balance_after. cbn [lit add sub mul div Math_pow rationals].
  change (inject_Z 1) with 1. rewrite (growth_succ r Hr) by lia. field. lra.
Qed.

(** The interest and the principal part of the record at position [j], and
    the sums of the principal parts, in closed form. *)
Lemma loop_exact_parts (todo : nat) : forall (k : Z) (bal : Q),
  (0 <= k)%Z -> Z.of_nat todo = (m - k)%Z -> bal == balance_after p r m k ->
  (forall j row,
     record_at (loop todo (k + 1) r (annuity p r m) bal) j = Some row ->
     interestAmount row == balance_after p r m (k + Z.of_nat j) * r
     /\ principalAmount row
        == balance_after p r m (k + Z.of_nat j) - balance_after p r m (k + Z.of_nat j + 1))
  /\ total principalAmount (loop todo (k + 1) r (annuity p r m) bal)
     == balance_after p r m k - balance_after p r m m.
Proof.
  unfold record_at.
  induction todo as [|todo IH]; intros k bal Hk Htodo Hbal.
  - split; [intros [|j] row; discriminate|].
    replace k with m by lia. cbn. ring.
  - assert (Hstep := balance_step k bal ltac:(lia) Hbal).
    assert (Hrem := period_exact p r m Hp Hr Hm (k + 1) k bal ltac:(lia) Hbal).
    rewrite loop_S; cbv zeta.
    set (row0 := period (k + 1) r (annuity p r m) bal) in *.
    assert (Hint : interestAmount row0 == balance_after p r m k * r).
    { subst row0. cbn [period interestAmount mul rationals]. now rewrite Hbal. }
    assert (Hpri : principalAmount row0
                   == balance_after p r m k - balance_after p r m (k + 1)).
    { subst row0. cbn [period principalAmount sub mul rationals]. lra. }
    destruct todo as [|todo'].
    + assert (Hrows : (if strict_eq (remainingBalance row0) (lit 0) then [row0]
                       else row0 :: loop 0 (k + 1 + 1) r (annuity p r m) (remainingBalance row0))
                      = [row0]) by (destruct (strict_eq _ _); reflexivity).
      rewrite Hrows. split.
      * intros [|[|j]] row; try discriminate. intros [= <-].
        rewrite Z.add_0_r. now split.
      * cbn [total fold_right add lit rationals]. rewrite Hpri.
        replace (k + 1)%Z with m by lia. change (inject_Z 0) with 0. ring.
    + assert (Hpos : 0 < balance_after p r m (k + 1))
        by (apply balance_after_pos; auto; lia).
      assert (E : strict_eq (remainingBalance row0) (lit 0) = false).
      { change (Qeq_bool (remainingBalance row0) 0 = false).
        destruct (Qeq_bool _ _) eqn:E; [|reflexivity].
        apply Qeq_bool_eq in E. rewrite E in Hrem. rewrite <- Hrem in Hpos.
        discriminate Hpos. }
      rewrite E.
      destruct (IH (k + 1)%Z (remainingBalance row0) ltac:(lia) ltac:(lia) Hrem)
        as [Hrows Hsum].
      split.
      * intros [|j] row Hj.
        -- injection Hj as <-. rewrite Z.add_0_r. now split.
        -- apply Hrows in Hj.
           replace (k + Z.of_nat (S j))%Z with (k + 1 + Z.of_nat j)%Z by lia.
           exact Hj.
      * change (total principalAmount (row0 :: ?l))
          with (principalAmount row0 + total principalAmount l).
        rewrite Hsum, Hpri. ring.
Qed.

End ClosedFormParts.

(** The parts of the record at position [j] of an accepted input's
    schedule, and the sum of the principal parts. *)
Lemma parts_exact (principal annualRate : Q) (m : Z) :
  rejected principal annualRate (IntVal m) = false ->
  (forall j row,
     record_at (schedule_of principal annualRate (IntVal m)) j = Some row ->
     interestAmount row
     == balance_after principal (monthlyRate_of annualRate) m (Z.of_nat j)
        * monthlyRate_of annualRate
     /\ principalAmount row
        == balance_after principal (monthlyRate_of annualRate) m (Z.of_nat j)
           - balance_after principal (monthlyRate_of annualRate) m (Z.of_nat j + 1))
  /\ total principalAmount (schedule_of principal annualRate (IntVal m)) == principal.
Proof.
  intros H. destruct (schedule_exact _ _ _ H) as (Hp & Hr & Hm & ->).
  destruct (loop_exact_parts principal (monthlyRate_of annualRate) m Hp Hr Hm
              (Z.to_nat m) 0 principal ltac:(lia) ltac:(lia)
              ltac:(symmetry; now apply balance_after_0)) as [Hrows Hsum].
  split.
  - exact Hrows.
  - change (0 + 1)%Z with 1%Z in Hsum. rewrite Hsum.
    rewrite balance_after_0, balance_after_m by assumption. ring.
Qed.

(** The sums of the columns of any list of records that split a payment [P]
    into principal and interest. *)
Lemma totals_split (P : Q) (rows : list (PaymentSchedule Q)) :
  Forall (fun row => paymentAmount row = P
                     /\ principalAmount row + interestAmount row == P) rows ->
  total paymentAmount rows == inject_Z (Z.of_nat (length rows)) * P
  /\ total principalAmount rows + total interestAmount rows
     == inject_Z (Z.of_nat (length rows)) * P.
Proof.
  induction 1 as [|row rows [Hpay Hsplit] _ [IH1 IH2]].
  - cbn. split; ring.
  - change (total ?f (row :: rows)) with (f row + total f rows).
    cbn [length]. rewrite Nat2Z.inj_succ, <- Z.add_1_r, inject_Z_plus.
    change (inject_Z 1) with 1. rewrite Hpay at 1. split.
    + rewrite IH1. ring.
    + setoid_replace (principalAmount row + total principalAmount rows
                      + (interestAmount row + total interestAmount rows))
        with ((principalAmount row + interestAmount row)
              + (total principalAmount rows + total interestAmount rows)) by ring.
      rewrite Hsplit, IH2. ring.
Qed.





End Accounts.

(** * Runs of the further properties *)

(** X1 at the two rendered states: both panels after the edit of the term,
    neither after the edit of the rate to 0. *)
Lemma summary_and_table_together_witness :
  renders (N := run64) edited_state
  /\ shows_summary edited_state = shows_table edited_state
  /\ shows_table edited_state = true
  /\ renders (N := run64) cleared_state
  /\ shows_summary cleared_state = shows_table cleared_state
  /\ shows_table cleared_state = false.
Proof.
  assert (H1 : renders (N := run64) edited_state).
  { apply renders_effect, renders_input, renders_effect.
    apply renders_initial; reflexivity. }
  assert (H2 : renders (N := run64) cleared_state).
  { apply renders_effect, renders_input. exact H1. }
  split; [exact H1|].
  split; [exact (summary_and_table_together (N := run64) edited_state H1)|].
  split; [vm_compute; reflexivity|].
  split; [exact H2|].
  split; [exact (summary_and_table_together (N := run64) cleared_state H2)|].
  vm_compute; reflexivity.
Defined.

(** X2 at the state after the edit of the term to 12 months. *)
Lemma row_keys_consecutive_witness :
  renders (N := run64) edited_state
  /\ row_keys edited_state = [1; 2; 3; 4; 5; 6; 7; 8; 9; 10; 11; 12]%Z
  /\ NoDup (row_keys edited_state).
Proof.
  assert (H1 : renders (N := run64) edited_state).
  { apply renders_effect, renders_input, renders_effect.
    apply renders_initial; reflexivity. }
  split; [exact H1|].
  destruct (row_keys_consecutive (N := run64) edited_state H1) as [Hkeys Hnodup].
  split; [|exact Hnodup]. rewrite Hkeys. vm_compute. reflexivity.
Defined.


(** X5 at 1000 at the rate [2^-50] percent over 12 months: [1 + r] rounds to
    1, the divisor [(1 + r)^12 - 1] is 0 and the payment is [Infinity]. *)
Lemma infinite_payment_single_record_witness :
  rejected (N := run64) 1000 0x1p-50 (IntVal 12) = false
  /\ monthlyPayment_of (N := run64) 1000 (monthlyRate_of (N := run64) 0x1p-50) 12
     = infinity
  /\ exists row,
       schedule_of (N := run64) 1000 0x1p-50 (IntVal 12) = [row]
       /\ paymentNumber row = 1%Z
       /\ principalAmount row = infinity
       /\ remainingBalance row = 0.
Proof.
  split; [reflexivity|]. split; [vm_compute; reflexivity|].
  apply (infinite_payment_single_record pow_mult 1000 0x1p-50 12).
  - reflexivity.
  - vm_compute. reflexivity.
  - reflexivity.
  - vm_compute. reflexivity.
Defined.




